(** * Resource detection for AWS Elastic Beanstalk: a shallow embedding

    This development embeds
    [packages/opentelemetry-resource-detector-aws/src/detectors/AwsBeanstalkDetector.ts]
    and the parts of the JavaScript host it talks to (the [fs] module, the
    built-in [JSON.parse], the diagnostic logger), together with the
    AttributeSet merge and the Resolver that the specification describes.

    Conventions.
    - A JavaScript string is a Rocq [string]; text outside ASCII is held as
      its UTF-8 bytes.
    - An [async] function is a computation in the monad [Async]: it reads the
      host, appends the calls it makes to a log, and completes normally or
      abruptly (a thrown exception, that is a rejected promise).
    - An object used as a dictionary is a [gmap string JSValue]. *)

From Stdlib Require Import String Ascii NArith ZArith List Lia Permutation.
From stdpp Require Import base option list gmap strings fin_maps.

Set Warnings "-register-all,-notation-for-abbreviation".
Local Open Scope string_scope.
Local Open Scope list_scope.

(** ** JavaScript values and exceptions *)

Module JS.

(** The values [JSON.parse] can produce, plus [undefined], which a property
    read produces. A number is kept as the text that denotes it: no claim
    depends on its numeric value.  An object keeps its properties in source
    order, duplicates included; [own_property] resolves duplicates. *)
Inductive JSValue : Type :=
| JUndefined
| JNull
| JBool (b : bool)
| JNumber (lexeme : string)
| JString (s : string)
| JArray (items : list JSValue)
| JObject (props : list (string * JSValue)).

(** An exception object: every exception raised by the code modelled here
    is an [Error] instance, so [e.message] is always a string. *)
Record JSError : Type := mkError { err_name : string; err_message : string }.

Definition SyntaxError (msg : string) : JSError := mkError "SyntaxError" msg.
Definition TypeError (msg : string) : JSError := mkError "TypeError" msg.
Definition RangeError (msg : string) : JSError := mkError "RangeError" msg.

Definition is_nullish (v : JSValue) : bool :=
  match v with
  | JUndefined | JNull => true
  | _ => false
  end.

(** The last binding of [k] in an object's property list: a later duplicate
    key overwrites an earlier one. *)
Fixpoint own_property (props : list (string * JSValue)) (k : string)
  : option JSValue :=
  match props with
  | [] => None
  | (k', v) :: rest =>
      match own_property rest k with
      | Some w => Some w
      | None => if String.eqb k' k then Some v else None
      end
  end.

(** [v.k] for a property name [k] that no built-in prototype defines (the
    detector reads [environment_name], [version_label] and [deployment_id]
    only): a [TypeError] on [null] and [undefined], the own property of an
    object, and [undefined] everywhere else. *)
Definition get_property (v : JSValue) (k : string) : JSError + JSValue :=
  match v with
  | JUndefined =>
      inl (TypeError ("Cannot read property '" ++ k ++ "' of undefined"))
  | JNull =>
      inl (TypeError ("Cannot read property '" ++ k ++ "' of null"))
  | JObject props => inr (default JUndefined (own_property props k))
  | _ => inr JUndefined
  end.

(** The value of [v.k] when the read does not throw: the own property of an
    object, [undefined] when the object has no such property or when [v] is
    not an object. *)
Definition property_value (v : JSValue) (k : string) : JSValue :=
  match v with
  | JObject props => default JUndefined (own_property props k)
  | _ => JUndefined
  end.

End JS.
Export JS.

(** ** The built-in [JSON.parse] *)

Module JSON.

Inductive PResult (A : Type) : Type :=
| POk (a : A) (rest : list ascii)
| PSyntax (msg : string)
| PFuel.
Arguments POk {A} a rest.
Arguments PSyntax {A} msg.
Arguments PFuel {A}.

Definition unexpected_end : string := "Unexpected end of JSON input".
Definition unexpected_token : string := "Unexpected token in JSON".

Definition dquote : ascii := ascii_of_nat 34.
Definition backslash : ascii := ascii_of_nat 92.

Definition code (c : ascii) : N := N_of_ascii c.

Definition is_ws (c : ascii) : bool :=
  let n := code c in
  ((n =? 32) || (n =? 9) || (n =? 10) || (n =? 13))%N.

Definition is_digit (c : ascii) : bool :=
  let n := code c in ((48 <=? n) && (n <=? 57))%N.

Definition is_digit19 (c : ascii) : bool :=
  let n := code c in ((49 <=? n) && (n <=? 57))%N.

Definition is_control (c : ascii) : bool := (code c <? 32)%N.

Fixpoint skip_ws (s : list ascii) : list ascii :=
  match s with
  | c :: r => if is_ws c then skip_ws r else s
  | [] => []
  end.

(** [strip_prefix p s] is what follows [p] in [s]. *)
Fixpoint strip_prefix (p s : list ascii) : option (list ascii) :=
  match p, s with
  | [], _ => Some s
  | a :: p', b :: s' => if Ascii.eqb a b then strip_prefix p' s' else None
  | _ :: _, [] => None
  end.

(** *** Strings *)

Definition hex_digit (c : ascii) : option N :=
  let n := code c in
  if ((48 <=? n) && (n <=? 57))%N then Some (n - 48)%N
  else if ((65 <=? n) && (n <=? 70))%N then Some (n - 55)%N
  else if ((97 <=? n) && (n <=? 102))%N then Some (n - 87)%N
  else None.

Definition hex4 (a b c d : ascii) : option N :=
  match hex_digit a, hex_digit b, hex_digit c, hex_digit d with
  | Some x, Some y, Some z, Some w =>
      Some (((x * 16 + y) * 16 + z) * 16 + w)%N
  | _, _, _, _ => None
  end.

Definition simple_escape (c : ascii) : option ascii :=
  let n := code c in
  if (n =? 34)%N then Some dquote
  else if (n =? 92)%N then Some backslash
  else if (n =? 47)%N then Some "/"%char
  else if (n =? 98)%N then Some (ascii_of_nat 8)
  else if (n =? 102)%N then Some (ascii_of_nat 12)
  else if (n =? 110)%N then Some (ascii_of_nat 10)
  else if (n =? 114)%N then Some (ascii_of_nat 13)
  else if (n =? 116)%N then Some (ascii_of_nat 9)
  else None.

(** What a string literal is made of: a character given as it is, or a
    UTF-16 code unit given by a [\uXXXX] escape. *)
Inductive StrItem : Type :=
| Raw (c : ascii)
| Unit16 (u : N).

Definition cons_item (i : StrItem) (r : PResult (list StrItem))
  : PResult (list StrItem) :=
  match r with
  | POk items rest => POk (i :: items) rest
  | PSyntax m => PSyntax m
  | PFuel => PFuel
  end.

(** The body of a string literal, after its opening quote. *)
Fixpoint lex_string (s : list ascii) : PResult (list StrItem) :=
  match s with
  | [] => PSyntax unexpected_end
  | c :: r =>
      if Ascii.eqb c dquote then POk [] r
      else if Ascii.eqb c backslash then
        match r with
        | [] => PSyntax unexpected_end
        | e :: r1 =>
            if Ascii.eqb e "u"%char then
              match r1 with
              | h1 :: h2 :: h3 :: h4 :: r2 =>
                  match hex4 h1 h2 h3 h4 with
                  | Some u => cons_item (Unit16 u) (lex_string r2)
                  | None => PSyntax unexpected_token
                  end
              | _ => PSyntax unexpected_end
              end
            else
              match simple_escape e with
              | Some x => cons_item (Raw x) (lex_string r1)
              | None => PSyntax unexpected_token
              end
        end
      else if is_control c then PSyntax unexpected_token
      else cons_item (Raw c) (lex_string r)
  end.

Definition byte (n : N) : ascii := ascii_of_N n.

(** UTF-8 bytes of a code point (a lone surrogate is encoded like any other
    three-byte code point). *)
Definition utf8 (cp : N) : list ascii :=
  (if cp <? 128 then [byte cp]
   else if cp <? 2048 then
     [byte (192 + cp / 64); byte (128 + cp mod 64)]
   else if cp <? 65536 then
     [byte (224 + cp / 4096); byte (128 + (cp / 64) mod 64);
      byte (128 + cp mod 64)]
   else
     [byte (240 + cp / 262144); byte (128 + (cp / 4096) mod 64);
      byte (128 + (cp / 64) mod 64); byte (128 + cp mod 64)])%N.

Definition is_high_surrogate (u : N) : bool :=
  ((55296 <=? u) && (u <=? 56319))%N.
Definition is_low_surrogate (u : N) : bool :=
  ((56320 <=? u) && (u <=? 57343))%N.
Definition surrogate_pair (h l : N) : N :=
  (65536 + (h - 55296) * 1024 + (l - 56320))%N.

Fixpoint decode_items (items : list StrItem) : list ascii :=
  match items with
  | [] => []
  | Raw c :: t => c :: decode_items t
  | Unit16 h :: t =>
      match t with
      | Unit16 l :: t' =>
          if is_high_surrogate h && is_low_surrogate l
          then utf8 (surrogate_pair h l) ++ decode_items t'
          else utf8 h ++ decode_items t
      | _ => utf8 h ++ decode_items t
      end
  end.

Definition parse_string (s : list ascii) : PResult string :=
  match lex_string s with
  | POk items rest => POk (string_of_list_ascii (decode_items items)) rest
  | PSyntax m => PSyntax m
  | PFuel => PFuel
  end.

(** *** Numbers *)

Fixpoint span_digits (s : list ascii) : list ascii * list ascii :=
  match s with
  | c :: r =>
      if is_digit c then let '(ds, r') := span_digits r in (c :: ds, r')
      else ([], s)
  | [] => ([], [])
  end.

Definition lex_int (s : list ascii) : option (list ascii * list ascii) :=
  match s with
  | c :: r =>
      if Ascii.eqb c "0"%char then Some ([c], r)
      else if is_digit19 c then
        let '(ds, r') := span_digits r in Some (c :: ds, r')
      else None
  | [] => None
  end.

Definition lex_frac (s : list ascii) : option (list ascii * list ascii) :=
  match s with
  | c :: r =>
      if Ascii.eqb c "."%char then
        match span_digits r with
        | ([], _) => None
        | (ds, r') => Some (c :: ds, r')
        end
      else Some ([], s)
  | [] => Some ([], [])
  end.

Definition lex_sign (s : list ascii) : list ascii * list ascii :=
  match s with
  | c :: r =>
      if Ascii.eqb c "+"%char || Ascii.eqb c "-"%char then ([c], r)
      else ([], s)
  | [] => ([], [])
  end.

Definition lex_exp (s : list ascii) : option (list ascii * list ascii) :=
  match s with
  | c :: r =>
      if Ascii.eqb c "e"%char || Ascii.eqb c "E"%char then
        let '(sg, r1) := lex_sign r in
        match span_digits r1 with
        | ([], _) => None
        | (ds, r2) => Some (c :: sg ++ ds, r2)
        end
      else Some ([], s)
  | [] => Some ([], [])
  end.

Definition lex_minus (s : list ascii) : list ascii * list ascii :=
  match s with
  | c :: r => if Ascii.eqb c "-"%char then ([c], r) else ([], s)
  | [] => ([], [])
  end.

Definition lex_number (s : list ascii) : option (list ascii * list ascii) :=
  let '(m, s0) := lex_minus s in
  match lex_int s0 with
  | None => None
  | Some (i, s1) =>
      match lex_frac s1 with
      | None => None
      | Some (f, s2) =>
          match lex_exp s2 with
          | None => None
          | Some (e, s3) => Some (m ++ i ++ f ++ e, s3)
          end
      end
  end.

(** *** Values *)

Definition keyword (rest_of_word : string) (v : JSValue) (r : list ascii)
  : PResult JSValue :=
  match strip_prefix (list_ascii_of_string rest_of_word) r with
  | Some r' => POk v r'
  | None => PSyntax unexpected_token
  end.

(** Recursive descent.  Every recursive call spends one unit of [fuel];
    [fuel_for] gives enough of it for the whole input (see
    [parse_value_fuel]). *)
Fixpoint parse_value (fuel : nat) (s : list ascii) {struct fuel}
  : PResult JSValue :=
  match fuel with
  | O => PFuel
  | S f =>
      match skip_ws s with
      | [] => PSyntax unexpected_end
      | c :: r =>
          if Ascii.eqb c "{"%char then
            match skip_ws r with
            | [] => PSyntax unexpected_end
            | c' :: r' =>
                if Ascii.eqb c' "}"%char then POk (JObject []) r'
                else
                  match parse_members f (c' :: r') [] with
                  | POk props r'' => POk (JObject props) r''
                  | PSyntax m => PSyntax m
                  | PFuel => PFuel
                  end
            end
          else if Ascii.eqb c "["%char then
            match skip_ws r with
            | [] => PSyntax unexpected_end
            | c' :: r' =>
                if Ascii.eqb c' "]"%char then POk (JArray []) r'
                else
                  match parse_elements f (c' :: r') [] with
                  | POk items r'' => POk (JArray items) r''
                  | PSyntax m => PSyntax m
                  | PFuel => PFuel
                  end
            end
          else if Ascii.eqb c dquote then
            match parse_string r with
            | POk str r' => POk (JString str) r'
            | PSyntax m => PSyntax m
            | PFuel => PFuel
            end
          else if Ascii.eqb c "t"%char then keyword "rue" (JBool true) r
          else if Ascii.eqb c "f"%char then keyword "alse" (JBool false) r
          else if Ascii.eqb c "n"%char then keyword "ull" JNull r
          else
            match lex_number (c :: r) with
            | Some (lx, r') => POk (JNumber (string_of_list_ascii lx)) r'
            | None => PSyntax unexpected_token
            end
      end
  end

with parse_elements (fuel : nat) (s : list ascii) (acc : list JSValue)
       {struct fuel} : PResult (list JSValue) :=
  match fuel with
  | O => PFuel
  | S f =>
      match parse_value f s with
      | POk v r =>
          match skip_ws r with
          | [] => PSyntax unexpected_end
          | c :: r' =>
              if Ascii.eqb c ","%char then parse_elements f r' (v :: acc)
              else if Ascii.eqb c "]"%char then POk (rev (v :: acc)) r'
              else PSyntax unexpected_token
          end
      | PSyntax m => PSyntax m
      | PFuel => PFuel
      end
  end

with parse_members (fuel : nat) (s : list ascii)
       (acc : list (string * JSValue)) {struct fuel}
  : PResult (list (string * JSValue)) :=
  match fuel with
  | O => PFuel
  | S f =>
      match skip_ws s with
      | [] => PSyntax unexpected_end
      | q :: r =>
          if Ascii.eqb q dquote then
            match parse_string r with
            | POk k r1 =>
                match skip_ws r1 with
                | [] => PSyntax unexpected_end
                | c :: r2 =>
                    if Ascii.eqb c ":"%char then
                      match parse_value f r2 with
                      | POk v r3 =>
                          match skip_ws r3 with
                          | [] => PSyntax unexpected_end
                          | d :: r4 =>
                              if Ascii.eqb d ","%char
                              then parse_members f r4 ((k, v) :: acc)
                              else if Ascii.eqb d "}"%char
                              then POk (rev ((k, v) :: acc)) r4
                              else PSyntax unexpected_token
                          end
                      | PSyntax m => PSyntax m
                      | PFuel => PFuel
                      end
                    else PSyntax unexpected_token
                end
            | PSyntax m => PSyntax m
            | PFuel => PFuel
            end
          else PSyntax unexpected_token
      end
  end.

Definition fuel_for (s : list ascii) : nat := 2 * length s + 2.

(** [JSON.parse(text)]: one value, with white space around it and nothing
    else.  The message of a [SyntaxError] depends on the engine and is
    approximated. *)
Definition parse (text : string) : JSError + JSValue :=
  let s := list_ascii_of_string text in
  match parse_value (fuel_for s) s with
  | POk v rest =>
      match skip_ws rest with
      | [] => inr v
      | _ :: _ => inl (SyntaxError unexpected_token)
      end
  | PSyntax m => inl (SyntaxError m)
  | PFuel => inl (RangeError "Maximum call stack size exceeded")
  end.

(** A document written with apostrophes in place of double quotes. *)
Definition requote (s : string) : string :=
  string_of_list_ascii
    (map (fun c => if Ascii.eqb c "'"%char then dquote else c)
         (list_ascii_of_string s)).

End JSON.


(** ** The host: file system, platform, diagnostic logger *)

Module Host.

(** What the process sees of its environment.  [fs_access path mode] is the
    error [fs.access] reports, if any; [fs_readFile path encoding] is the
    error or the text [fs.readFile] reports.  The two are independent, so a
    file that changes between the probe and the read is covered. *)
Record Host : Type := mkHost {
  process_platform : string;
  fs_access : string -> Z -> option JSError;
  fs_readFile : string -> string -> JSError + string;
}.

(** [fs.constants.R_OK] *)
Definition R_OK : Z := 4.

(** The calls a computation makes to its collaborators, in program order. *)
Inductive Call : Type :=
| CallAccess (path : string) (mode : Z)
| CallReadFile (path : string) (encoding : string)
| CallJSONParse (text : string)
| CallDiagDebug (message : string).

(** How a computation ends: with a value, or with a thrown exception. *)
Inductive Completion (A : Type) : Type :=
| Normal (a : A)
| Throw (e : JSError).
Arguments Normal {A} a.
Arguments Throw {A} e.

(** An asynchronous computation: awaiting is sequencing. *)
Definition Async (A : Type) : Type :=
  Host -> list Call -> Completion A * list Call.

Definition ret {A} (a : A) : Async A := fun _ log => (Normal a, log).

Definition throw {A} (e : JSError) : Async A := fun _ log => (Throw e, log).

Definition bind {A B} (m : Async A) (k : A -> Async B) : Async B :=
  fun h log =>
    match m h log with
    | (Normal a, log') => k a h log'
    | (Throw e, log') => (Throw e, log')
    end.

(** [try { body } catch (e) { handler }] *)
Definition try_catch {A} (body : Async A) (handler : JSError -> Async A)
  : Async A :=
  fun h log =>
    match body h log with
    | (Normal a, log') => (Normal a, log')
    | (Throw e, log') => handler e h log'
    end.

Definition of_result {A} (r : JSError + A) : Async A :=
  match r with
  | inl e => throw e
  | inr a => ret a
  end.

Definition emit (c : Call) : Async unit :=
  fun _ log => (Normal tt, log ++ [c]).

Definition ask : Async Host := fun h log => (Normal h, log).

Module Import Notations.
Notation "'let*' x ':=' m 'in' k" := (bind m (fun x => k))
  (at level 10, x name, m at level 100, k at level 200).
Notation "m ';;' k" := (bind m (fun _ => k))
  (at level 100, k at level 200, right associativity).
End Notations.

(** [await util.promisify(fs.access)(path, mode)] *)
Definition fileAccessAsync (path : string) (mode : Z) : Async unit :=
  emit (CallAccess path mode);;
  let* h := ask in
  match fs_access h path mode with
  | Some e => throw e
  | None => ret tt
  end.

(** [await util.promisify(fs.readFile)(path, encoding)] *)
Definition readFileAsync (path encoding : string) : Async string :=
  emit (CallReadFile path encoding);;
  let* h := ask in
  of_result (fs_readFile h path encoding).

(** [JSON.parse(text)] *)
Definition JSON_parse (text : string) : Async JSValue :=
  emit (CallJSONParse text);;
  of_result (JSON.parse text).

(** [diag.debug(message)] of [@opentelemetry/api], an external package.
    Modelled from the spec: the diagnostic sink receives the message,
    fire-and-forget, and never blocks or throws. *)
Definition diag_debug (message : string) : Async unit :=
  emit (CallDiagDebug message).

End Host.
Export Host.
Import Host.Notations.

(** ** Resources *)

Module Resources.

(** Modelled from the spec: [Resource], the AttributeSet of the
    specification, whose class is declared in [@opentelemetry/resources]:
    a finite mapping from attribute keys to values, built once from an
    attributes object and not changed afterwards. *)
Record Resource : Type := mkResource { attributes : gmap string JSValue }.

(** [new Resource(attributes)] *)
Definition Resource_new (attrs : gmap string JSValue) : Resource :=
  mkResource attrs.

(** Modelled from the spec: [Resource.empty()], the distinguished AttributeSet
    that carries no information. *)
Definition Resource_empty : Resource := mkResource ∅.

(** An object literal [{[k1]: v1, ..., [kn]: vn}]: the properties are
    defined from left to right, a later one replacing an earlier one of the
    same key. *)
Definition object_literal (props : list (string * JSValue))
  : gmap string JSValue :=
  foldl (fun o kv => <[kv.1 := kv.2]> o) ∅ props.

(** Modelled from the spec: the keys and values of
    [@opentelemetry/semantic-conventions] that the detector uses. *)
Module SemanticResourceAttributes.
Definition CLOUD_PROVIDER : string := "cloud.provider".
Definition CLOUD_PLATFORM : string := "cloud.platform".
Definition SERVICE_NAME : string := "service.name".
Definition SERVICE_NAMESPACE : string := "service.namespace".
Definition SERVICE_VERSION : string := "service.version".
Definition SERVICE_INSTANCE_ID : string := "service.instance.id".
End SemanticResourceAttributes.

Module CloudProviderValues.
Definition AWS : string := "aws".
End CloudProviderValues.

Module CloudPlatformValues.
Definition AWS_ELASTIC_BEANSTALK : string := "aws_elastic_beanstalk".
End CloudPlatformValues.

(** Modelled from the spec: which values count as empty for the merge
    rule (the specification says "absent/empty" and no more): [undefined],
    [null] and the empty string. *)
Definition is_empty_value (v : JSValue) : bool :=
  match v with
  | JUndefined | JNull => true
  | JString s => String.eqb s ""
  | _ => false
  end.

(** Modelled from the spec: the precedence rule of [merge(a, b)] at one
    key: the later writer [b] wins, unless the key is present in [a] and
    absent or empty in [b], in which case the value of [a] is kept. *)
Definition merge_value (va vb : option JSValue) : option JSValue :=
  match va, vb with
  | Some x, Some y => if is_empty_value y then Some x else Some y
  | Some x, None => Some x
  | None, _ => vb
  end.

(** Modelled from the spec: [merge(a, b)], the merge operation of
    [Resource], which is not among the sources. *)
Definition merge (a b : Resource) : Resource :=
  mkResource (base.merge merge_value (attributes a) (attributes b)).

End Resources.
Export Resources.

(** ** The detector *)

Module AwsBeanstalk.
Import SemanticResourceAttributes.

Definition DEFAULT_BEANSTALK_CONF_PATH : string :=
  "/var/elasticbeanstalk/xray/environment.conf".
Definition WIN_OS_BEANSTALK_CONF_PATH : string :=
  "C:\Program Files\Amazon\XRay\environment.conf".

Record AwsBeanstalkDetector : Type := mkDetector {
  BEANSTALK_CONF_PATH : string;
}.

(** [new AwsBeanstalkDetector()] *)
Definition constructor (h : Host) : AwsBeanstalkDetector :=
  if String.eqb (process_platform h) "win32"
  then mkDetector WIN_OS_BEANSTALK_CONF_PATH
  else mkDetector DEFAULT_BEANSTALK_CONF_PATH.

Section Detect.
(** [ResourceDetectionConfig] is declared in [@opentelemetry/resources];
    the detector is written for any such type. *)
Context {ResourceDetectionConfig : Type}.

(** The [try] block of [detect]. *)
Definition detect_try (this : AwsBeanstalkDetector) : Async Resource :=
  fileAccessAsync (BEANSTALK_CONF_PATH this) R_OK;;
  let* rawData := readFileAsync (BEANSTALK_CONF_PATH this) "utf8" in
  let* parsedData := JSON_parse rawData in
  let* environment_name :=
    of_result (get_property parsedData "environment_name") in
  let* version_label :=
    of_result (get_property parsedData "version_label") in
  let* deployment_id :=
    of_result (get_property parsedData "deployment_id") in
  ret (Resource_new (object_literal [
    (CLOUD_PROVIDER, JString CloudProviderValues.AWS);
    (CLOUD_PLATFORM, JString CloudPlatformValues.AWS_ELASTIC_BEANSTALK);
    (SERVICE_NAME, JString CloudPlatformValues.AWS_ELASTIC_BEANSTALK);
    (SERVICE_NAMESPACE, environment_name);
    (SERVICE_VERSION, version_label);
    (SERVICE_INSTANCE_ID, deployment_id)
  ])).

(** The [catch] block of [detect]. *)
Definition detect_catch (e : JSError) : Async Resource :=
  diag_debug ("AwsBeanstalkDetector failed: " ++ err_message e);;
  ret Resource_empty.

(** [async detect(_config?: ResourceDetectionConfig): Promise<Resource>] *)
Definition detect (this : AwsBeanstalkDetector)
    (_config : option ResourceDetectionConfig) : Async Resource :=
  try_catch (detect_try this) detect_catch.
End Detect.

(** [export const awsBeanstalkDetector = new AwsBeanstalkDetector()] *)
Definition awsBeanstalkDetector (h : Host) : AwsBeanstalkDetector :=
  constructor h.

End AwsBeanstalk.
Export AwsBeanstalk.

(** ** The Resolver *)

Module Resolver.

(** Modelled from the spec: the static configuration handed to the
    Resolver and to every detector (the Resolver is not among the
    sources). *)
Record Config : Type := mkConfig {
  timeout : Z;
  run_concurrently : bool;
}.

(** Modelled from the spec: the Detector capability as the Resolver sees
    it: [detect] yields an AttributeSet, every failure having been turned
    into the empty one at the detector's boundary. *)
Record Detector : Type := mkDetector { detect : Config -> Resource }.

(** Modelled from the spec: what can happen to a launched detection: it
    completes, or its timeout expires. *)
Inductive Event : Type :=
| Completed (i : nat)
| TimedOut (i : nat).

(** One slot per configured detector, in configured order; [None] while
    the detection is in flight. *)
Definition launch (detectors : list Detector) : list (option Resource) :=
  replicate (length detectors) None.

(** A slot is settled once: what arrives later is discarded. *)
Definition settle (i : nat) (r : Resource) (slots : list (option Resource))
  : list (option Resource) :=
  match slots !! i with
  | Some None => <[i := Some r]> slots
  | _ => slots
  end.

Definition step (detectors : list Detector) (config : Config)
    (slots : list (option Resource)) (ev : Event)
  : list (option Resource) :=
  match ev with
  | Completed i =>
      match detectors !! i with
      | Some d => settle i (detect d config) slots
      | None => slots
      end
  | TimedOut i => settle i Resource_empty slots
  end.

(** The join: every slot settled. *)
Fixpoint join (slots : list (option Resource)) : option (list Resource) :=
  match slots with
  | [] => Some []
  | Some r :: rest =>
      match join rest with
      | Some rs => Some (r :: rs)
      | None => None
      end
  | None :: _ => None
  end.

Definition fold_results (results : list Resource) : Resource :=
  foldl merge Resource_empty results.

(** Modelled from the spec: [resolve(detectors, config)], observed on a
    run in which the detections end in the order [events]: launch every
    detector, collect the results in configured order, fold them from left
    to right through [merge].  [None]: some detection has not ended. *)
Definition resolve (detectors : list Detector) (config : Config)
    (events : list Event) : option Resource :=
  fold_results <$>
    join (foldl (step detectors config) (launch detectors) events).

End Resolver.

(** ** Hosts, documents and detectors used in examples *)

Module Examples.

Definition ENOENT (path : string) : JSError :=
  mkError "Error" ("ENOENT: no such file or directory, access '" ++ path ++ "'").
Definition EACCES (path : string) : JSError :=
  mkError "Error" ("EACCES: permission denied, access '" ++ path ++ "'").

(** A Linux host without the configuration file. *)
Definition host_absent : Host :=
  mkHost "linux" (fun p _ => Some (ENOENT p)) (fun p _ => inl (ENOENT p)).

(** A Linux host on which the configuration file may not be read. *)
Definition host_denied : Host :=
  mkHost "linux" (fun p _ => Some (EACCES p)) (fun p _ => inl (EACCES p)).

(** A host whose configuration file holds [text]; any other path is
    absent. *)
Definition host_with (platform text : string) : Host :=
  let conf :=
    if String.eqb platform "win32" then WIN_OS_BEANSTALK_CONF_PATH
    else DEFAULT_BEANSTALK_CONF_PATH in
  mkHost platform
    (fun p _ => if String.eqb p conf then None else Some (ENOENT p))
    (fun p _ => if String.eqb p conf then inr text else inl (ENOENT p)).

(** The document of the specification's example. *)
Definition prod_conf : string :=
  JSON.requote
    "{'environment_name':'prod','version_label':'v1','deployment_id':'i-123'}".

(** A document whose [version_label] is [null] and that has no other
    field. *)
Definition null_version_conf : string :=
  JSON.requote "{'version_label':null}".

(** A document with one of the three expected fields. *)
Definition partial_conf : string :=
  JSON.requote "{'environment_name':'prod'}".

(** A document that names the service. *)
Definition named_conf : string :=
  JSON.requote
    "{'service.name':'checkout','service_name':'checkout','environment_name':'prod','version_label':'v1','deployment_id':'i-123'}".

(** The detectors of the specification's Resolver example. *)
Definition D1 : Resolver.Detector :=
  Resolver.mkDetector
    (fun _ => Resource_new (object_literal [("a", JString "1")])).
Definition D2 : Resolver.Detector :=
  Resolver.mkDetector
    (fun _ => Resource_new
                (object_literal [("a", JString "2"); ("b", JString "3")])).

(** A host on which every path can be accessed and read: the configuration
    file holds [text], every other file holds [other]. *)
Definition host_crowded (platform text other : string) : Host :=
  let conf :=
    if String.eqb platform "win32" then WIN_OS_BEANSTALK_CONF_PATH
    else DEFAULT_BEANSTALK_CONF_PATH in
  mkHost platform
    (fun _ _ => None)
    (fun p _ => if String.eqb p conf then inr text else inr other).

(** A document that is an array, not an object. *)
Definition array_conf : string := "[1,2]".

End Examples.

(** * Properties *)

(** ** The parser has fuel enough *)

Module JSONFacts.
Import JSON.

Lemma skip_ws_length (s : list ascii) : length (skip_ws s) <= length s.
Proof.
  induction s as [|c r IH]; simpl; [lia|].
  destruct (is_ws c); simpl; lia.
Qed.

Lemma skip_ws_cons (s r : list ascii) (c : ascii) :
  skip_ws s = c :: r -> length r < length s.
Proof.
  intros H. pose proof (skip_ws_length s) as L. rewrite H in L.
  simpl in L. lia.
Qed.

Lemma strip_prefix_length (p s r : list ascii) :
  strip_prefix p s = Some r -> length r <= length s.
Proof.
  revert s; induction p as [|a p IH]; intros [|b s]; simpl; intros H;
    try congruence.
  - inversion H; simpl; lia.
  - inversion H; simpl; lia.
  - destruct (Ascii.eqb a b); [|congruence].
    apply IH in H. lia.
Qed.

Lemma cons_item_ok i res items rest :
  cons_item i res = POk items rest ->
  exists items', res = POk items' rest /\ items = i :: items'.
Proof. destruct res; simpl; intros H; inversion H; eauto. Qed.

Lemma cons_item_fuel i res : cons_item i res = PFuel -> res = PFuel.
Proof. destruct res; simpl; congruence. Qed.

Lemma lex_string_aux (n : nat) :
  forall s, length s <= n ->
    lex_string s <> PFuel /\
    forall items r, lex_string s = POk items r -> length r < length s.
Proof.
  induction n as [|n IH]; intros [|c s] Hn; simpl in *;
    try (split; [congruence | intros ? ?; congruence]); [lia|].
  assert (forall i t, length t <= n ->
            cons_item i (lex_string t) <> PFuel /\
            forall items r, cons_item i (lex_string t) = POk items r ->
                            length r < length t) as Hrec.
  { intros i t Ht. destruct (IH t Ht) as [F L]. split.
    - intros H. apply cons_item_fuel in H. contradiction.
    - intros items r H. apply cons_item_ok in H as (items' & H & _).
      eauto. }
  destruct (Ascii.eqb c dquote).
  { split; [congruence|]. intros items r H; inversion H; subst; lia. }
  destruct (Ascii.eqb c backslash).
  - destruct s as [|e r1]; [split; [congruence | intros ? ?; congruence]|].
    destruct (Ascii.eqb e "u").
    + destruct r1 as [|h1 [|h2 [|h3 [|h4 r2]]]];
        try (split; [congruence | intros ? ?; congruence]).
      destruct (hex4 h1 h2 h3 h4);
        [|split; [congruence | intros ? ?; congruence]].
      simpl in Hn. destruct (Hrec (Unit16 n0) r2 ltac:(lia)) as [F L].
      split; [exact F|]. intros items r H. apply L in H. simpl; lia.
    + destruct (simple_escape e);
        [|split; [congruence | intros ? ?; congruence]].
      simpl in Hn. destruct (Hrec (Raw a) r1 ltac:(lia)) as [F L].
      split; [exact F|]. intros items r H. apply L in H. simpl; lia.
  - destruct (is_control c); [split; [congruence | intros ? ?; congruence]|].
    destruct (Hrec (Raw c) s ltac:(lia)) as [F L].
    split; [exact F|]. intros items r H. apply L in H. lia.
Qed.

Lemma parse_string_length s k r :
  parse_string s = POk k r -> length r < length s.
Proof.
  unfold parse_string. destruct (lex_string s) eqn:E; try congruence.
  intros H; inversion H; subst.
  eapply (proj2 (lex_string_aux (length s) s (le_n _))); eauto.
Qed.

Lemma parse_string_fuel s : parse_string s <> PFuel.
Proof.
  unfold parse_string.
  pose proof (proj1 (lex_string_aux (length s) s (le_n _))) as H.
  destruct (lex_string s); congruence.
Qed.

Lemma span_digits_length s ds r :
  span_digits s = (ds, r) -> length r <= length s.
Proof.
  revert ds r; induction s as [|c s IH]; simpl; intros ds r H.
  - inversion H; simpl; lia.
  - destruct (is_digit c).
    + destruct (span_digits s) as [ds' r'] eqn:E. inversion H; subst.
      specialize (IH _ _ eq_refl). lia.
    + inversion H; subst; simpl; lia.
Qed.

Lemma lex_int_length s i r : lex_int s = Some (i, r) -> length r < length s.
Proof.
  destruct s as [|c s]; simpl; [congruence|].
  destruct (Ascii.eqb c "0"); [intros H; inversion H; subst; lia|].
  destruct (is_digit19 c); [|congruence].
  destruct (span_digits s) as [ds r'] eqn:E. apply span_digits_length in E.
  intros H; inversion H; subst; lia.
Qed.

Lemma lex_frac_length s f r : lex_frac s = Some (f, r) -> length r <= length s.
Proof.
  destruct s as [|c s]; simpl; [intros H; inversion H; simpl; lia|].
  destruct (Ascii.eqb c "."); [|intros H; inversion H; simpl; lia].
  destruct (span_digits s) as [ds r'] eqn:E. apply span_digits_length in E.
  destruct ds; [congruence|]. intros H; inversion H; subst; lia.
Qed.

Lemma lex_sign_length s sg r : lex_sign s = (sg, r) -> length r <= length s.
Proof.
  destruct s as [|c s]; simpl; [intros H; inversion H; simpl; lia|].
  destruct (_ || _); intros H; inversion H; subst; simpl; lia.
Qed.

Lemma lex_exp_length s e r : lex_exp s = Some (e, r) -> length r <= length s.
Proof.
  destruct s as [|c s]; simpl; [intros H; inversion H; simpl; lia|].
  destruct (_ || _); [|intros H; inversion H; simpl; lia].
  destruct (lex_sign s) as [sg r1] eqn:E1. apply lex_sign_length in E1.
  destruct (span_digits r1) as [ds r2] eqn:E2. apply span_digits_length in E2.
  destruct ds; [congruence|]. intros H; inversion H; subst; lia.
Qed.

Lemma lex_minus_length s m r : lex_minus s = (m, r) -> length r <= length s.
Proof.
  destruct s as [|c s]; simpl; [intros H; inversion H; simpl; lia|].
  destruct (Ascii.eqb c "-"); intros H; inversion H; subst; simpl; lia.
Qed.

Lemma lex_number_length s lx r :
  lex_number s = Some (lx, r) -> length r < length s.
Proof.
  unfold lex_number.
  destruct (lex_minus s) as [m s0] eqn:E0. apply lex_minus_length in E0.
  destruct (lex_int s0) as [[i s1]|] eqn:E1; [|congruence].
  apply lex_int_length in E1.
  destruct (lex_frac s1) as [[f s2]|] eqn:E2; [|congruence].
  apply lex_frac_length in E2.
  destruct (lex_exp s2) as [[e s3]|] eqn:E3; [|congruence].
  apply lex_exp_length in E3.
  intros H; inversion H; subst; lia.
Qed.

Lemma keyword_length w v r v' r' :
  keyword w v r = POk v' r' -> length r' <= length r.
Proof.
  unfold keyword.
  destruct (strip_prefix _ r) as [r0|] eqn:E; [|congruence].
  apply strip_prefix_length in E. intros H; inversion H; subst; lia.
Qed.

Lemma keyword_fuel w v r : keyword w v r <> PFuel.
Proof. unfold keyword. destruct (strip_prefix _ r); congruence. Qed.

#[local] Arguments keyword : simpl never.
#[local] Arguments lex_number : simpl never.
#[local] Arguments parse_string : simpl never.
#[local] Arguments skip_ws : simpl never.

(** What a parser leaves is shorter than what it was given. *)
Lemma parse_length (fuel : nat) :
  (forall s v r, parse_value fuel s = POk v r -> length r < length s) /\
  (forall s acc v r,
      parse_elements fuel s acc = POk v r -> length r < length s) /\
  (forall s acc v r,
      parse_members fuel s acc = POk v r -> length r < length s).
Proof.
  induction fuel as [|f (IHv & IHe & IHm)];
    [repeat split; simpl; congruence|].
  repeat split.
  - intros s v r. simpl.
    destruct (skip_ws s) as [|c r0] eqn:Es; [congruence|].
    apply skip_ws_cons in Es.
    destruct (Ascii.eqb c "{").
    { destruct (skip_ws r0) as [|c' r'] eqn:Es'; [congruence|].
      apply skip_ws_cons in Es'.
      destruct (Ascii.eqb c' "}"); [intros H; inversion H; subst; lia|].
      destruct (parse_members f (c' :: r') []) eqn:Em; try congruence.
      apply IHm in Em. intros H; inversion H; subst. simpl in *; lia. }
    destruct (Ascii.eqb c "[").
    { destruct (skip_ws r0) as [|c' r'] eqn:Es'; [congruence|].
      apply skip_ws_cons in Es'.
      destruct (Ascii.eqb c' "]"); [intros H; inversion H; subst; lia|].
      destruct (parse_elements f (c' :: r') []) eqn:Em; try congruence.
      apply IHe in Em. intros H; inversion H; subst. simpl in *; lia. }
    destruct (Ascii.eqb c dquote).
    { destruct (parse_string r0) eqn:E; try congruence.
      apply parse_string_length in E.
      intros H; inversion H; subst; lia. }
    destruct (Ascii.eqb c "t");
      [intros H; apply keyword_length in H; lia|].
    destruct (Ascii.eqb c "f");
      [intros H; apply keyword_length in H; lia|].
    destruct (Ascii.eqb c "n");
      [intros H; apply keyword_length in H; lia|].
    destruct (lex_number (c :: r0)) as [[lx r']|] eqn:E; [|congruence].
    apply lex_number_length in E.
    intros H; inversion H; subst. simpl in *; lia.
  - intros s acc v r. simpl.
    destruct (parse_value f s) as [v0 r0| |] eqn:Ev; try congruence.
    apply IHv in Ev.
    destruct (skip_ws r0) as [|c r'] eqn:Es; [congruence|].
    apply skip_ws_cons in Es.
    destruct (Ascii.eqb c ",").
    { intros H; apply IHe in H; lia. }
    destruct (Ascii.eqb c "]"); [|congruence].
    intros H; inversion H; subst; lia.
  - intros s acc v r. simpl.
    destruct (skip_ws s) as [|q r0] eqn:Es; [congruence|].
    apply skip_ws_cons in Es.
    destruct (Ascii.eqb q dquote); [|congruence].
    destruct (parse_string r0) as [k r1| |] eqn:Ek; try congruence.
    apply parse_string_length in Ek.
    destruct (skip_ws r1) as [|c r2] eqn:Es1; [congruence|].
    apply skip_ws_cons in Es1.
    destruct (Ascii.eqb c ":"); [|congruence].
    destruct (parse_value f r2) as [v0 r3| |] eqn:Ev; try congruence.
    apply IHv in Ev.
    destruct (skip_ws r3) as [|d r4] eqn:Es3; [congruence|].
    apply skip_ws_cons in Es3.
    destruct (Ascii.eqb d ",").
    { intros H; apply IHm in H; lia. }
    destruct (Ascii.eqb d "}"); [|congruence].
    intros H; inversion H; subst; lia.
Qed.

(** With twice the length of the input as fuel, no parser runs out. *)
Lemma parse_fuel (fuel : nat) :
  (forall s, 2 * length s < fuel -> parse_value fuel s <> PFuel) /\
  (forall s acc,
      2 * length s + 1 < fuel -> parse_elements fuel s acc <> PFuel) /\
  (forall s acc,
      2 * length s + 1 < fuel -> parse_members fuel s acc <> PFuel).
Proof.
  induction fuel as [|f (IHv & IHe & IHm)]; [repeat split; intros; lia|].
  destruct (parse_length f) as (Lv & Le & Lm).
  repeat split.
  - intros s Hf. simpl.
    destruct (skip_ws s) as [|c r0] eqn:Es; [congruence|].
    apply skip_ws_cons in Es.
    destruct (Ascii.eqb c "{").
    { destruct (skip_ws r0) as [|c' r'] eqn:Es'; [congruence|].
      pose proof (skip_ws_length r0) as L0. rewrite Es' in L0.
      destruct (Ascii.eqb c' "}"); [congruence|].
      pose proof (IHm (c' :: r') [] ltac:(lia)).
      destruct (parse_members f (c' :: r') []); congruence. }
    destruct (Ascii.eqb c "[").
    { destruct (skip_ws r0) as [|c' r'] eqn:Es'; [congruence|].
      pose proof (skip_ws_length r0) as L0. rewrite Es' in L0.
      destruct (Ascii.eqb c' "]"); [congruence|].
      pose proof (IHe (c' :: r') [] ltac:(lia)).
      destruct (parse_elements f (c' :: r') []); congruence. }
    destruct (Ascii.eqb c dquote).
    { pose proof (parse_string_fuel r0).
      destruct (parse_string r0); congruence. }
    destruct (Ascii.eqb c "t"); [apply keyword_fuel|].
    destruct (Ascii.eqb c "f"); [apply keyword_fuel|].
    destruct (Ascii.eqb c "n"); [apply keyword_fuel|].
    destruct (lex_number (c :: r0)) as [[lx r']|]; congruence.
  - intros s acc Hf. simpl.
    pose proof (IHv s ltac:(lia)) as Fv.
    destruct (parse_value f s) as [v0 r0| |] eqn:Ev; try congruence.
    apply Lv in Ev.
    destruct (skip_ws r0) as [|c r'] eqn:Es; [congruence|].
    apply skip_ws_cons in Es.
    destruct (Ascii.eqb c ","); [apply IHe; lia|].
    destruct (Ascii.eqb c "]"); congruence.
  - intros s acc Hf. simpl.
    destruct (skip_ws s) as [|q r0] eqn:Es; [congruence|].
    apply skip_ws_cons in Es.
    destruct (Ascii.eqb q dquote); [|congruence].
    pose proof (parse_string_fuel r0) as Fk.
    destruct (parse_string r0) as [k r1| |] eqn:Ek; try congruence.
    apply parse_string_length in Ek.
    destruct (skip_ws r1) as [|c r2] eqn:Es1; [congruence|].
    apply skip_ws_cons in Es1.
    destruct (Ascii.eqb c ":"); [|congruence].
    pose proof (IHv r2 ltac:(lia)) as Fv.
    destruct (parse_value f r2) as [v0 r3| |] eqn:Ev; try congruence.
    apply Lv in Ev.
    destruct (skip_ws r3) as [|d r4] eqn:Es3; [congruence|].
    apply skip_ws_cons in Es3.
    destruct (Ascii.eqb d ","); [apply IHm; lia|].
    destruct (Ascii.eqb d "}"); congruence.
Qed.

Lemma parse_value_fuel (s : list ascii) :
  parse_value (fuel_for s) s <> PFuel.
Proof. apply parse_fuel. unfold fuel_for. lia. Qed.

(** [JSON.parse] yields a value or a [SyntaxError], whatever the text. *)
Lemma parse_total (text : string) :
  (exists v, parse text = inr v) \/
  (exists msg, parse text = inl (SyntaxError msg)).
Proof.
  unfold parse.
  pose proof (parse_value_fuel (list_ascii_of_string text)) as F.
  destruct (parse_value _ _) as [v rest|m|]; [| eauto | congruence].
  destruct (skip_ws rest); eauto.
Qed.

(** [JSON.parse] never yields [undefined]. *)
Lemma parse_not_undefined (text : string) : parse text <> inr JUndefined.
Proof.
  unfold parse.
  generalize (fuel_for (list_ascii_of_string text)) as fuel.
  generalize (list_ascii_of_string text) as s.
  intros s [|f]; simpl; [congruence|].
  assert (forall r : PResult JSValue,
             (forall rest, r <> POk JUndefined rest) ->
             match r with
             | POk v rest =>
                 match skip_ws rest with
                 | [] => inr v
                 | _ :: _ => inl (SyntaxError unexpected_token)
                 end
             | PSyntax m => inl (SyntaxError m)
             | PFuel => inl (RangeError "Maximum call stack size exceeded")
             end <> @inr JSError _ JUndefined) as K.
  { intros [v rest|m|] Hr; try congruence.
    destruct (skip_ws rest); [|congruence].
    intros E. inversion E; subst. eapply Hr; eauto. }
  apply K. intros rest.
  destruct (skip_ws s) as [|c r0]; [congruence|].
  destruct (Ascii.eqb c "{").
  { destruct (skip_ws r0) as [|c' r']; [congruence|].
    destruct (Ascii.eqb c' "}"); [congruence|].
    destruct (parse_members f (c' :: r') []); congruence. }
  destruct (Ascii.eqb c "[").
  { destruct (skip_ws r0) as [|c' r']; [congruence|].
    destruct (Ascii.eqb c' "]"); [congruence|].
    destruct (parse_elements f (c' :: r') []); congruence. }
  destruct (Ascii.eqb c dquote).
  { destruct (parse_string r0); congruence. }
  unfold keyword.
  destruct (Ascii.eqb c "t"); [destruct (strip_prefix _ _); congruence|].
  destruct (Ascii.eqb c "f"); [destruct (strip_prefix _ _); congruence|].
  destruct (Ascii.eqb c "n"); [destruct (strip_prefix _ _); congruence|].
  destruct (lex_number (c :: r0)) as [[lx r']|]; congruence.
Qed.

(** *** The parser at work *)

Example parse_prod_conf :
  parse Examples.prod_conf
  = inr (JObject [("environment_name", JString "prod");
                  ("version_label", JString "v1");
                  ("deployment_id", JString "i-123")]).
Proof. vm_compute. reflexivity. Qed.

Example parse_nested :
  parse (requote " [1, -2.5e+3, true, null, {'a': {'b': []}}] ")
  = inr (JArray [JNumber "1"; JNumber "-2.5e+3"; JBool true; JNull;
                 JObject [("a", JObject [("b", JArray [])])]]).
Proof. vm_compute. reflexivity. Qed.

Example parse_escapes :
  parse (requote "'aA\/\\'")
  = inr (JString (String "a" (String "A" (String "/" (String backslash ""))))).
Proof. vm_compute. reflexivity. Qed.

Example parse_duplicate_key :
  exists v, parse (requote "{'k':1,'k':2}") = inr v /\
            get_property v "k" = inr (JNumber "2").
Proof. eexists. split; vm_compute; reflexivity. Qed.

Example parse_rejects_trailing_comma :
  parse (requote "{'a':1,}") = inl (SyntaxError unexpected_token).
Proof. vm_compute. reflexivity. Qed.

Example parse_rejects_leading_zero :
  parse "01" = inl (SyntaxError unexpected_token).
Proof. vm_compute. reflexivity. Qed.

Example parse_rejects_apostrophes :
  parse "{'a':1}" = inl (SyntaxError unexpected_token).
Proof. vm_compute. reflexivity. Qed.

Example parse_rejects_empty_text :
  parse "" = inl (SyntaxError unexpected_end).
Proof. vm_compute. reflexivity. Qed.

Example parse_rejects_open_string :
  parse (requote "{'a") = inl (SyntaxError unexpected_end).
Proof. vm_compute. reflexivity. Qed.

End JSONFacts.

(** ** Merge *)

Module MergeFacts.

Lemma merge_lookup (a b : Resource) (k : string) :
  attributes (merge a b) !! k
  = merge_value (attributes a !! k) (attributes b !! k).
Proof.
  unfold merge; simpl. rewrite lookup_merge.
  destruct (attributes a !! k), (attributes b !! k); reflexivity.
Qed.

Lemma Resource_eq (a b : Resource) :
  (forall k, attributes a !! k = attributes b !! k) -> a = b.
Proof. destruct a, b; simpl; intros H. f_equal. by apply map_eq. Qed.

Lemma merge_empty_r (a : Resource) : merge a Resource_empty = a.
Proof.
  apply Resource_eq; intros k. rewrite merge_lookup; simpl.
  rewrite lookup_empty. by destruct (attributes a !! k).
Qed.

Lemma merge_empty_l (b : Resource) : merge Resource_empty b = b.
Proof.
  apply Resource_eq; intros k. rewrite merge_lookup; simpl.
  by rewrite lookup_empty.
Qed.

(** C6. In [merge a b], a key that [b] maps to a non-empty value takes that
    value (the later writer wins), and a key that [a] maps to a non-empty
    value keeps it when [b] has no value or an empty value for it; so
    merging [{"k":"v1"}] with [{"k":"v2"}] gives [{"k":"v2"}], and merging
    [{"k":"v1"}] with the empty set gives [{"k":"v1"}]. *)
Theorem merge_precedence :
  (forall (a b : Resource) (k : string) (v : JSValue),
      attributes b !! k = Some v -> is_empty_value v = false ->
      attributes (merge a b) !! k = Some v) /\
  (forall (a b : Resource) (k : string) (v : JSValue),
      attributes a !! k = Some v -> is_empty_value v = false ->
      (attributes b !! k = None \/
       exists w, attributes b !! k = Some w /\ is_empty_value w = true) ->
      attributes (merge a b) !! k = Some v) /\
  merge (Resource_new (object_literal [("k", JString "v1")]))
        (Resource_new (object_literal [("k", JString "v2")]))
  = Resource_new (object_literal [("k", JString "v2")]) /\
  merge (Resource_new (object_literal [("k", JString "v1")]))
        (Resource_new (object_literal []))
  = Resource_new (object_literal [("k", JString "v1")]).
Proof.
  split; [|split; [|split]].
  - intros a b k v Hb Hv. rewrite merge_lookup, Hb.
    destruct (attributes a !! k); simpl; by rewrite ?Hv.
  - intros a b k v Ha _ [Hb | (w & Hb & Hw)]; rewrite merge_lookup, Ha, Hb;
      simpl; by rewrite ?Hw.
  - apply Resource_eq; intros k. rewrite merge_lookup.
    unfold object_literal; simpl.
    destruct (decide (k = "k")) as [->|Hk].
    + by rewrite !lookup_insert_eq.
    + by rewrite !lookup_insert_ne, lookup_empty.
  - apply (merge_empty_r (Resource_new (object_literal [("k", JString "v1")]))).
Qed.

Lemma merge_precedence_witness :
  attributes (merge (Resource_new (object_literal [("k", JString "v1")]))
                    (Resource_new (object_literal [("k", JString "v2")])))
    !! "k" = Some (JString "v2") /\
  attributes (merge (Resource_new (object_literal [("k", JString "v1")]))
                    (Resource_new (object_literal [("k", JString "")])))
    !! "k" = Some (JString "v1").
Proof.
  split.
  - apply (proj1 merge_precedence); reflexivity.
  - apply (proj1 (proj2 merge_precedence)); [reflexivity | reflexivity |].
    right. exists (JString ""). split; reflexivity.
Defined.

(** C7. Merge is idempotent: [merge a a = a] for every AttributeSet [a]. *)
Theorem merge_idempotent (a : Resource) : merge a a = a.
Proof.
  apply Resource_eq; intros k. rewrite merge_lookup.
  destruct (attributes a !! k) as [v|]; simpl; [|reflexivity].
  by destruct (is_empty_value v).
Qed.

End MergeFacts.

(** ** The Resolver *)

Module ResolverFacts.
Import Resolver MergeFacts.

Section Run.
Variable detectors : list Detector.
Variable config : Config.

(** Every slot is in flight or holds its own detector's result. *)
Definition sound (slots : list (option Resource)) : Prop :=
  length slots = length detectors /\
  forall i d, detectors !! i = Some d ->
    slots !! i = Some None \/ slots !! i = Some (Some (detect d config)).

Lemma launch_sound : sound (launch detectors).
Proof.
  split; [apply length_replicate|].
  intros i d Hd. left. apply lookup_replicate_2.
  eapply lookup_lt_Some; eauto.
Qed.

Lemma settle_length i r slots : length (settle i r slots) = length slots.
Proof.
  unfold settle. destruct (slots !! i) as [[?|]|]; auto using length_insert.
Qed.

Lemma settle_other i j r slots :
  i <> j -> settle i r slots !! j = slots !! j.
Proof.
  intros Hne. unfold settle.
  destruct (slots !! i) as [[?|]|]; auto using list_lookup_insert_ne.
Qed.

Lemma settle_same i r slots :
  settle i r slots !! i
  = match slots !! i with Some None => Some (Some r) | o => o end.
Proof.
  unfold settle. destruct (slots !! i) as [[?|]|] eqn:E; auto.
  apply list_lookup_insert_eq. eapply lookup_lt_Some; eauto.
Qed.

Lemma step_sound slots i :
  sound slots -> sound (step detectors config slots (Completed i)).
Proof.
  intros [HL HS]. simpl. destruct (detectors !! i) as [d|] eqn:Hd;
    [|by split].
  split; [by rewrite settle_length|].
  intros j d' Hd'. destruct (decide (i = j)) as [<-|Hne].
  - rewrite settle_same. assert (d' = d) as -> by congruence.
    destruct (HS i d Hd) as [-> | ->]; auto.
  - rewrite settle_other by done. auto.
Qed.

Lemma step_settles slots i d :
  sound slots -> detectors !! i = Some d ->
  step detectors config slots (Completed i) !! i
  = Some (Some (detect d config)).
Proof.
  intros [HL HS] Hd. simpl. rewrite Hd, settle_same.
  by destruct (HS i d Hd) as [-> | ->].
Qed.

Lemma step_keeps slots ev j r :
  slots !! j = Some (Some r) ->
  step detectors config slots ev !! j = Some (Some r).
Proof.
  intros Hj.
  assert (forall i r', settle i r' slots !! j = Some (Some r)) as K.
  { intros i r'. destruct (decide (i = j)) as [->|Hne].
    - by rewrite settle_same, Hj.
    - by rewrite settle_other. }
  destruct ev as [i|i]; simpl; [destruct (detectors !! i)|]; auto.
Qed.

Lemma run_keeps events : forall slots j r,
  slots !! j = Some (Some r) ->
  foldl (step detectors config) slots events !! j = Some (Some r).
Proof.
  induction events as [|ev events IH]; simpl; auto using step_keeps.
Qed.

(** After a run made of completions, every detector that completed has
    its result in its slot. *)
Lemma run_settles events : forall slots,
  sound slots ->
  Forall (fun ev => exists i, ev = Completed i) events ->
  sound (foldl (step detectors config) slots events) /\
  forall i d, detectors !! i = Some d -> Completed i ∈ events ->
    foldl (step detectors config) slots events !! i
    = Some (Some (detect d config)).
Proof.
  induction events as [|ev events IH]; intros slots Hs Hall; simpl.
  - split; [done|]. intros i d _ Hin. by apply elem_of_nil in Hin.
  - apply Forall_cons in Hall as [[i ->] Hall].
    destruct (IH _ (step_sound slots i Hs) Hall) as [Hs' Hin'].
    split; [done|]. intros j d Hd Hin.
    apply elem_of_cons in Hin as [Heq | Hin]; [|by auto].
    inversion Heq; subst j.
    apply run_keeps. by apply step_settles.
Qed.

Lemma join_results (results : list Resource) :
  join (Some <$> results) = Some results.
Proof.
  induction results as [|r rs IH]; [done|].
  rewrite fmap_cons. simpl. by rewrite IH.
Qed.

(** When every detection has completed, in whatever order, the Resolver
    returns the fold of the results in configured order. *)
Lemma resolve_fold (events : list Event) :
  events ≡ₚ Completed <$> seq 0 (length detectors) ->
  resolve detectors config events
  = Some (foldl merge Resource_empty
            (map (fun d => detect d config) detectors)).
Proof.
  intros Hperm. unfold resolve.
  assert (Forall (fun ev => exists i, ev = Completed i) events) as Hall.
  { rewrite Hperm. apply Forall_fmap, Forall_forall. intros i _.
    simpl. eauto. }
  destruct (run_settles events _ launch_sound Hall) as [[HL _] Hin].
  assert (foldl (step detectors config) (launch detectors) events
          = Some <$> map (fun d => detect d config) detectors) as ->.
  { apply list_eq. intros i.
    rewrite list_lookup_fmap. change (map ?f ?l) with (f <$> l).
    rewrite list_lookup_fmap.
    destruct (detectors !! i) as [d|] eqn:Hd; simpl.
    - apply Hin; [done|]. rewrite Hperm.
      apply list_elem_of_fmap_2, elem_of_seq.
      apply lookup_lt_Some in Hd. lia.
    - apply lookup_ge_None. rewrite HL. by apply lookup_ge_None. }
  by rewrite join_results.
Qed.
End Run.

(** A timeout that expires before the detection completes leaves the
    empty AttributeSet in the slot; a detection still in flight keeps the
    join waiting. *)
Example resolve_after_timeout :
  resolve [Examples.D1; Examples.D2] (mkConfig 1000 true)
          [TimedOut 1; Completed 0; Completed 1]
  = Some (Resource_new (object_literal [("a", JString "1")])).
Proof. vm_compute. reflexivity. Qed.

Example resolve_in_flight :
  resolve [Examples.D1; Examples.D2] (mkConfig 1000 true) [Completed 1]
  = None.
Proof. vm_compute. reflexivity. Qed.

(** C8. The Resolver's result does not depend on the order in which the
    detections complete: it is the left-to-right fold, through merge, of
    the detectors' results in configured order; two runs that differ only
    in the completion order return the same AttributeSet; and for [D1]
    returning [{"a":"1"}] and [D2] returning [{"a":"2","b":"3"}], resolve
    returns [{"a":"2","b":"3"}] whichever completes first. *)
Theorem resolve_deterministic :
  (forall detectors config events,
      events ≡ₚ Completed <$> seq 0 (length detectors) ->
      resolve detectors config events
      = Some (foldl merge Resource_empty
                (map (fun d => detect d config) detectors))) /\
  (forall detectors config events1 events2,
      events1 ≡ₚ Completed <$> seq 0 (length detectors) ->
      events2 ≡ₚ Completed <$> seq 0 (length detectors) ->
      resolve detectors config events1 = resolve detectors config events2) /\
  (forall config events,
      events ≡ₚ [Completed 0; Completed 1] ->
      resolve [Examples.D1; Examples.D2] config events
      = Some (Resource_new
                (object_literal [("a", JString "2"); ("b", JString "3")]))).
Proof.
  split; [exact resolve_fold|]. split.
  - intros detectors config events1 events2 H1 H2.
    by rewrite !resolve_fold.
  - intros config events H. rewrite resolve_fold by exact H. simpl.
    vm_compute. reflexivity.
Qed.

Lemma resolve_deterministic_witness :
  resolve [Examples.D1; Examples.D2] (mkConfig 1000 true)
          [Completed 1; Completed 0]
  = Some (Resource_new
            (object_literal [("a", JString "2"); ("b", JString "3")])) /\
  resolve [Examples.D1; Examples.D2] (mkConfig 1000 true)
          [Completed 1; Completed 0]
  = resolve [Examples.D1; Examples.D2] (mkConfig 1000 true)
            [Completed 0; Completed 1].
Proof.
  split.
  - apply (proj2 (proj2 resolve_deterministic)). apply perm_swap.
  - apply (proj1 (proj2 resolve_deterministic)); simpl.
    + apply perm_swap.
    + reflexivity.
Defined.

End ResolverFacts.

(** ** The detector *)

Module AwsBeanstalkFacts.
Import SemanticResourceAttributes Examples.

(** The message the [catch] block logs. *)
Local Notation failed e :=
  (CallDiagDebug ("AwsBeanstalkDetector failed: " ++ err_message e)).

(** The attributes of the success path, for a parsed document [v]. *)
Local Notation extracted v :=
  (Resource_new (object_literal [
     (CLOUD_PROVIDER, JString CloudProviderValues.AWS);
     (CLOUD_PLATFORM, JString CloudPlatformValues.AWS_ELASTIC_BEANSTALK);
     (SERVICE_NAME, JString CloudPlatformValues.AWS_ELASTIC_BEANSTALK);
     (SERVICE_NAMESPACE, property_value v "environment_name");
     (SERVICE_VERSION, property_value v "version_label");
     (SERVICE_INSTANCE_ID, property_value v "deployment_id")])).

Ltac run_detect :=
  unfold detect, detect_try, detect_catch, try_catch, fileAccessAsync,
    readFileAsync, JSON_parse, diag_debug, bind, emit, ask, of_result,
    ret, throw.

Ltac tidy_log := repeat (rewrite <- app_assoc; simpl).

Lemma get_property_defined (v : JSValue) (k : string) :
  is_nullish v = false -> get_property v k = inr (property_value v k).
Proof. destruct v; simpl; congruence. Qed.

Lemma get_property_null (k : string) :
  get_property JNull k
  = inl (TypeError ("Cannot read property '" ++ k ++ "' of null")).
Proof. reflexivity. Qed.

Section Runs.
Context {Config : Type}.
Variable this : AwsBeanstalkDetector.
Variable config : option Config.
Variable h : Host.
Variable log : list Call.

Let path := BEANSTALK_CONF_PATH this.

Lemma detect_access_error (e : JSError) :
  fs_access h path R_OK = Some e ->
  detect this config h log
  = (Normal Resource_empty, log ++ [CallAccess path R_OK; failed e]).
Proof.
  intros Ha. run_detect. fold path. rewrite Ha. by tidy_log.
Qed.

Lemma detect_read_error (e : JSError) :
  fs_access h path R_OK = None ->
  fs_readFile h path "utf8" = inl e ->
  detect this config h log
  = (Normal Resource_empty,
     log ++ [CallAccess path R_OK; CallReadFile path "utf8"; failed e]).
Proof.
  intros Ha Hr. run_detect. fold path. rewrite Ha, Hr. by tidy_log.
Qed.

Lemma detect_parse_error (raw : string) (e : JSError) :
  fs_access h path R_OK = None ->
  fs_readFile h path "utf8" = inr raw ->
  JSON.parse raw = inl e ->
  detect this config h log
  = (Normal Resource_empty,
     log ++ [CallAccess path R_OK; CallReadFile path "utf8";
             CallJSONParse raw; failed e]).
Proof.
  intros Ha Hr Hp. run_detect. fold path. rewrite Ha, Hr, Hp.
  by tidy_log.
Qed.

Lemma detect_null (raw : string) :
  fs_access h path R_OK = None ->
  fs_readFile h path "utf8" = inr raw ->
  JSON.parse raw = inr JNull ->
  detect this config h log
  = (Normal Resource_empty,
     log ++ [CallAccess path R_OK; CallReadFile path "utf8";
             CallJSONParse raw;
             failed (TypeError
                       "Cannot read property 'environment_name' of null")]).
Proof.
  intros Ha Hr Hp. run_detect. fold path. rewrite Ha, Hr, Hp.
  by tidy_log.
Qed.

Lemma detect_success (raw : string) (v : JSValue) :
  fs_access h path R_OK = None ->
  fs_readFile h path "utf8" = inr raw ->
  JSON.parse raw = inr v ->
  is_nullish v = false ->
  detect this config h log
  = (Normal (extracted v),
     log ++ [CallAccess path R_OK; CallReadFile path "utf8";
             CallJSONParse raw]).
Proof.
  intros Ha Hr Hp Hv. run_detect. fold path. rewrite Ha, Hr, Hp.
  rewrite !(get_property_defined v) by exact Hv. by tidy_log.
Qed.
End Runs.

(** What the success path builds. *)
Lemma extracted_lookup (v : JSValue) :
  attributes (extracted v) !! CLOUD_PROVIDER = Some (JString "aws") /\
  attributes (extracted v) !! CLOUD_PLATFORM
    = Some (JString "aws_elastic_beanstalk") /\
  attributes (extracted v) !! SERVICE_NAME
    = Some (JString "aws_elastic_beanstalk") /\
  attributes (extracted v) !! SERVICE_NAMESPACE
    = Some (property_value v "environment_name") /\
  attributes (extracted v) !! SERVICE_VERSION
    = Some (property_value v "version_label") /\
  attributes (extracted v) !! SERVICE_INSTANCE_ID
    = Some (property_value v "deployment_id").
Proof.
  unfold Resource_new, object_literal; simpl.
  repeat split;
    repeat (first [ rewrite lookup_insert_eq; reflexivity
                  | rewrite lookup_insert_ne by discriminate ]).
Qed.

Lemma extracted_dom (v : JSValue) :
  dom (attributes (extracted v))
  = list_to_set [CLOUD_PROVIDER; CLOUD_PLATFORM; SERVICE_NAME;
                 SERVICE_NAMESPACE; SERVICE_VERSION; SERVICE_INSTANCE_ID].
Proof.
  unfold Resource_new, object_literal; simpl.
  rewrite !dom_insert_L, dom_empty_L. set_solver.
Qed.

Lemma extracted_not_empty (v : JSValue) : extracted v <> Resource_empty.
Proof.
  intros E. pose proof (proj1 (extracted_lookup v)) as H.
  rewrite E in H. simpl in H. by rewrite lookup_empty in H.
Qed.

(** The detector at work, on Windows and elsewhere. *)
Example detect_on_windows :
  @detect Resolver.Config (constructor (host_with "win32" prod_conf)) None
    (host_with "win32" prod_conf) []
  = (Normal (Resource_new (object_literal [
       ("cloud.provider", JString "aws");
       ("cloud.platform", JString "aws_elastic_beanstalk");
       ("service.name", JString "aws_elastic_beanstalk");
       ("service.namespace", JString "prod");
       ("service.version", JString "v1");
       ("service.instance.id", JString "i-123")])),
     [CallAccess WIN_OS_BEANSTALK_CONF_PATH 4;
      CallReadFile WIN_OS_BEANSTALK_CONF_PATH "utf8";
      CallJSONParse prod_conf]).
Proof. vm_compute. reflexivity. Qed.

Example detect_off_platform :
  @detect Resolver.Config (constructor host_absent) None host_absent []
  = (Normal Resource_empty,
     [CallAccess DEFAULT_BEANSTALK_CONF_PATH 4;
      CallDiagDebug
        "AwsBeanstalkDetector failed: ENOENT: no such file or directory, access '/var/elasticbeanstalk/xray/environment.conf'"]).
Proof. vm_compute. reflexivity. Qed.

Example detect_null_document :
  fst (@detect Resolver.Config (constructor (host_with "linux" "null")) None
         (host_with "linux" "null") [])
  = Normal Resource_empty.
Proof. vm_compute. reflexivity. Qed.

(** *** Failures stay inside the detector *)

(** C1. Whatever the state of the file system, [detect] completes normally:
    it never throws past its own boundary; and whenever its [try] block
    throws (file absent, unreadable, unparseable, or anything else), the
    exception is caught and [detect] returns the empty AttributeSet,
    [Resource.empty()]. *)
Theorem detect_never_throws {Config : Type} (this : AwsBeanstalkDetector)
    (config : option Config) (h : Host) (log : list Call) :
  (exists r log', detect this config h log = (Normal r, log')) /\
  (forall e log',
      detect_try this h log = (Throw e, log') ->
      detect this config h log
      = (Normal Resource_empty, log' ++ [failed e])).
Proof.
  unfold detect, try_catch.
  destruct (detect_try this h log) as [[r|e] log'] eqn:E; split.
  - eauto.
  - intros e log'' H. discriminate H.
  - unfold detect_catch, diag_debug, bind, emit, ret. eauto.
  - intros e' log'' H. inversion H; subst. reflexivity.
Qed.

Lemma detect_never_throws_witness :
  detect_try (constructor host_denied) host_denied []
  = (Throw (EACCES DEFAULT_BEANSTALK_CONF_PATH),
     [CallAccess DEFAULT_BEANSTALK_CONF_PATH R_OK]) /\
  @detect Resolver.Config (constructor host_denied) None host_denied []
  = (Normal Resource_empty,
     [CallAccess DEFAULT_BEANSTALK_CONF_PATH R_OK]
       ++ [failed (EACCES DEFAULT_BEANSTALK_CONF_PATH)]).
Proof.
  split; [reflexivity|].
  apply (proj2 (detect_never_throws (constructor host_denied) None
                  host_denied [])).
  reflexivity.
Defined.

(** C9. If the configuration file path is not read-accessible, [detect]
    returns the empty AttributeSet at once: after the access probe it only
    logs the failure; it neither reads nor parses the file. *)
Theorem detect_inaccessible {Config : Type} (this : AwsBeanstalkDetector)
    (config : option Config) (h : Host) (log : list Call) (e : JSError) :
  fs_access h (BEANSTALK_CONF_PATH this) R_OK = Some e ->
  detect this config h log
  = (Normal Resource_empty,
     log ++ [CallAccess (BEANSTALK_CONF_PATH this) R_OK; failed e]) /\
  (forall c, c ∈ drop (length log) (snd (detect this config h log)) ->
     (forall p enc, c <> CallReadFile p enc) /\
     (forall text, c <> CallJSONParse text)).
Proof.
  intros Ha. rewrite (detect_access_error this config h log e Ha).
  split; [reflexivity|]. simpl. rewrite drop_app_length.
  intros c Hc. apply elem_of_cons in Hc as [-> | Hc]; [by split|].
  apply elem_of_cons in Hc as [-> | Hc]; [by split|].
  by apply elem_of_nil in Hc.
Qed.

Lemma detect_inaccessible_witness :
  fs_access host_absent (BEANSTALK_CONF_PATH (constructor host_absent)) R_OK
  = Some (ENOENT DEFAULT_BEANSTALK_CONF_PATH) /\
  @detect Resolver.Config (constructor host_absent) None host_absent []
  = (Normal Resource_empty,
     [CallAccess DEFAULT_BEANSTALK_CONF_PATH R_OK;
      failed (ENOENT DEFAULT_BEANSTALK_CONF_PATH)]).
Proof.
  split; [reflexivity|].
  apply (detect_inaccessible (constructor host_absent) None host_absent []
           (ENOENT DEFAULT_BEANSTALK_CONF_PATH)).
  reflexivity.
Defined.

(** C10. The result of [detect] does not depend on its configuration
    argument: on the same host, two configurations, of whatever type, given
    or omitted, yield the same AttributeSet and the same calls; no timeout
    taken from the configuration is enforced inside [detect]. *)
Theorem detect_ignores_config {Config1 Config2 : Type}
    (this : AwsBeanstalkDetector) (config1 : option Config1)
    (config2 : option Config2) (h : Host) (log : list Call) :
  detect this config1 h log = detect this config2 h log.
Proof. reflexivity. Qed.

(** *** The success path *)

(** C2. If the configuration file is readable and holds the document
    [{"environment_name":"prod","version_label":"v1","deployment_id":"i-123"}],
    [detect] returns an AttributeSet with [cloud.provider=aws],
    [cloud.platform=aws_elastic_beanstalk], [service.namespace=prod],
    [service.version=v1] and [service.instance.id=i-123]. *)
Theorem detect_prod_conf {Config : Type} (this : AwsBeanstalkDetector)
    (config : option Config) (h : Host) (log : list Call) :
  fs_access h (BEANSTALK_CONF_PATH this) R_OK = None ->
  fs_readFile h (BEANSTALK_CONF_PATH this) "utf8" = inr prod_conf ->
  exists r log',
    detect this config h log = (Normal r, log') /\
    attributes r !! "cloud.provider" = Some (JString "aws") /\
    attributes r !! "cloud.platform" = Some (JString "aws_elastic_beanstalk") /\
    attributes r !! "service.namespace" = Some (JString "prod") /\
    attributes r !! "service.version" = Some (JString "v1") /\
    attributes r !! "service.instance.id" = Some (JString "i-123").
Proof.
  intros Ha Hr.
  assert (JSON.parse prod_conf
          = inr (JObject [("environment_name", JString "prod");
                          ("version_label", JString "v1");
                          ("deployment_id", JString "i-123")])) as Hp
    by (vm_compute; reflexivity).
  eexists _, _. split.
  - apply (detect_success this config h log _ _ Ha Hr Hp). reflexivity.
  - repeat split; vm_compute; reflexivity.
Qed.

Lemma detect_prod_conf_witness :
  exists r log',
    @detect Resolver.Config (constructor (host_with "win32" prod_conf)) None
      (host_with "win32" prod_conf) [] = (Normal r, log') /\
    attributes r !! "cloud.provider" = Some (JString "aws") /\
    attributes r !! "cloud.platform" = Some (JString "aws_elastic_beanstalk") /\
    attributes r !! "service.namespace" = Some (JString "prod") /\
    attributes r !! "service.version" = Some (JString "v1") /\
    attributes r !! "service.instance.id" = Some (JString "i-123").
Proof.
  apply (detect_prod_conf (constructor (host_with "win32" prod_conf)) None
           (host_with "win32" prod_conf) []); reflexivity.
Defined.

(** Every run of [detect] ends in one of two ways. *)
Lemma detect_cases {Config : Type} (this : AwsBeanstalkDetector)
    (config : option Config) (h : Host) (log : list Call) :
  (exists log', detect this config h log = (Normal Resource_empty, log')) \/
  (exists raw v,
      fs_access h (BEANSTALK_CONF_PATH this) R_OK = None /\
      fs_readFile h (BEANSTALK_CONF_PATH this) "utf8" = inr raw /\
      JSON.parse raw = inr v /\ is_nullish v = false /\
      detect this config h log
      = (Normal (extracted v),
         log ++ [CallAccess (BEANSTALK_CONF_PATH this) R_OK;
                 CallReadFile (BEANSTALK_CONF_PATH this) "utf8";
                 CallJSONParse raw])).
Proof.
  destruct (fs_access h (BEANSTALK_CONF_PATH this) R_OK) as [e|] eqn:Ha.
  { left. eexists. by apply detect_access_error. }
  destruct (fs_readFile h (BEANSTALK_CONF_PATH this) "utf8") as [e|raw] eqn:Hr.
  { left. eexists. by apply detect_read_error. }
  destruct (JSON.parse raw) as [e|v] eqn:Hp.
  { left. eexists. by eapply detect_parse_error. }
  destruct (is_nullish v) eqn:Hv.
  - left. destruct v; try discriminate Hv.
    + by apply JSONFacts.parse_not_undefined in Hp.
    + eexists. by eapply detect_null.
  - right. exists raw, v. repeat split; try done.
    by apply detect_success.
Qed.

(** C3, counterexample. The file holds [{"version_label":null}]: the set
    that [detect] returns has the key [service.version] mapped to [null], and
    the key [service.namespace], whose source field is absent, mapped to
    [undefined]. *)
Lemma detect_inserts_null :
  JSON.parse null_version_conf = inr (JObject [("version_label", JNull)]) /\
  exists r log',
    @detect Resolver.Config (constructor (host_with "linux" null_version_conf))
      None (host_with "linux" null_version_conf) [] = (Normal r, log') /\
    attributes r !! "service.version" = Some JNull /\
    attributes r !! "service.namespace" = Some JUndefined.
Proof. split; [|eexists _, _; repeat split]; vm_compute; reflexivity. Qed.

(** C3, amended. Every AttributeSet that [detect] returns is either empty or
    has exactly the six keys [cloud.provider], [cloud.platform],
    [service.name], [service.namespace], [service.version] and
    [service.instance.id].  The first three map to non-null string
    constants.  The last three are never omitted: each maps to the value of
    its source field in the parsed document, which is [undefined] when the
    field is absent. *)
Theorem detect_never_omits {Config : Type} (this : AwsBeanstalkDetector)
    (config : option Config) (h : Host) (log : list Call) :
  exists r log',
    detect this config h log = (Normal r, log') /\
    (r = Resource_empty \/
     exists raw v,
       fs_readFile h (BEANSTALK_CONF_PATH this) "utf8" = inr raw /\
       JSON.parse raw = inr v /\
       dom (attributes r)
       = list_to_set [CLOUD_PROVIDER; CLOUD_PLATFORM; SERVICE_NAME;
                      SERVICE_NAMESPACE; SERVICE_VERSION;
                      SERVICE_INSTANCE_ID] /\
       attributes r !! CLOUD_PROVIDER = Some (JString "aws") /\
       attributes r !! CLOUD_PLATFORM
         = Some (JString "aws_elastic_beanstalk") /\
       attributes r !! SERVICE_NAME = Some (JString "aws_elastic_beanstalk") /\
       attributes r !! SERVICE_NAMESPACE
         = Some (property_value v "environment_name") /\
       attributes r !! SERVICE_VERSION
         = Some (property_value v "version_label") /\
       attributes r !! SERVICE_INSTANCE_ID
         = Some (property_value v "deployment_id") /\
       (forall props, v = JObject props ->
          (own_property props "environment_name" = None ->
           attributes r !! SERVICE_NAMESPACE = Some JUndefined) /\
          (own_property props "version_label" = None ->
           attributes r !! SERVICE_VERSION = Some JUndefined) /\
          (own_property props "deployment_id" = None ->
           attributes r !! SERVICE_INSTANCE_ID = Some JUndefined))).
Proof.
  destruct (detect_cases this config h log)
    as [[log' E] | (raw & v & Ha & Hr & Hp & Hv & E)].
  { exists Resource_empty, log'. auto. }
  eexists _, _. split; [exact E|]. right. exists raw, v.
  destruct (extracted_lookup v) as (L1 & L2 & L3 & L4 & L5 & L6).
  repeat (split; [first [assumption | apply extracted_dom]|]).
  intros props ->. rewrite L4, L5, L6. simpl.
  repeat split; intros ->; reflexivity.
Qed.

(** *** Malformed content *)

(** C4, counterexample. The file holds [{"environment_name":"prod"}], which
    lacks two of the three expected fields: [detect] does not return the
    empty AttributeSet but a partly extracted one. *)
Lemma detect_partial_document :
  JSON.parse partial_conf
  = inr (JObject [("environment_name", JString "prod")]) /\
  exists r log',
    @detect Resolver.Config (constructor (host_with "linux" partial_conf))
      None (host_with "linux" partial_conf) [] = (Normal r, log') /\
    r <> Resource_empty /\
    attributes r !! "service.namespace" = Some (JString "prod") /\
    attributes r !! "service.version" = Some JUndefined /\
    attributes r !! "service.instance.id" = Some JUndefined.
Proof.
  split; [vm_compute; reflexivity|].
  eexists _, _. split; [|split].
  - apply (detect_success (constructor (host_with "linux" partial_conf)) None
             (host_with "linux" partial_conf) [] partial_conf
             (JObject [("environment_name", JString "prod")]));
      vm_compute; reflexivity.
  - apply extracted_not_empty.
  - repeat split; vm_compute; reflexivity.
Qed.

(** C4, amended. If the configuration file is readable but its content
    fails to parse as JSON, or parses to [null], [detect] returns the empty
    AttributeSet, exactly as for a file that cannot be accessed.  If the
    content parses to any other JSON value, [detect] returns the six-key
    AttributeSet built from it, whether or not the expected fields are
    there. *)
Theorem detect_malformed {Config : Type} (this : AwsBeanstalkDetector)
    (config : option Config) (h : Host) (log : list Call) (raw : string) :
  fs_access h (BEANSTALK_CONF_PATH this) R_OK = None ->
  fs_readFile h (BEANSTALK_CONF_PATH this) "utf8" = inr raw ->
  ((exists e, JSON.parse raw = inl e) \/ JSON.parse raw = inr JNull ->
   fst (detect this config h log) = Normal Resource_empty /\
   forall h' e',
     fs_access h' (BEANSTALK_CONF_PATH this) R_OK = Some e' ->
     fst (detect this config h log) = fst (detect this config h' log)) /\
  (forall v,
     JSON.parse raw = inr v -> v <> JNull ->
     fst (detect this config h log) = Normal (extracted v) /\
     extracted v <> Resource_empty).
Proof.
  intros Ha Hr. split.
  - intros Hbad.
    assert (fst (detect this config h log) = Normal Resource_empty) as E.
    { destruct Hbad as [[e Hp] | Hp].
      - by rewrite (detect_parse_error this config h log raw e Ha Hr Hp).
      - by rewrite (detect_null this config h log raw Ha Hr Hp). }
    split; [exact E|]. intros h' e' Ha'.
    by rewrite E, (detect_access_error this config h' log e' Ha').
  - intros v Hp Hv. split; [|apply extracted_not_empty].
    rewrite (detect_success this config h log raw v Ha Hr Hp); [done|].
    destruct v; try done.
    by apply JSONFacts.parse_not_undefined in Hp.
Qed.

Lemma detect_malformed_witness :
  fst (@detect Resolver.Config (constructor (host_with "linux" "{not json"))
         None (host_with "linux" "{not json") [])
  = Normal Resource_empty /\
  fst (@detect Resolver.Config (constructor (host_with "linux" "{not json"))
         None (host_with "linux" "{not json") [])
  = fst (@detect Resolver.Config (constructor (host_with "linux" "{not json"))
           None host_absent []).
Proof.
  destruct (detect_malformed (Config := Resolver.Config)
              (constructor (host_with "linux" "{not json")) None
              (host_with "linux" "{not json") [] "{not json"
              eq_refl eq_refl) as [Hbad _].
  destruct Hbad as [E Hsame].
  - left. eexists. vm_compute. reflexivity.
  - split; [exact E|].
    apply (Hsame host_absent (ENOENT DEFAULT_BEANSTALK_CONF_PATH)).
    reflexivity.
Defined.

(** *** The mapping of fields to attributes *)

(** C5, counterexample. The file holds a document that names the service
    ([service.name] and [service_name] are both ["checkout"]): [detect]
    still sets [service.name] to the platform constant. *)
Lemma detect_service_name_fixed :
  (exists props,
      JSON.parse named_conf = inr (JObject props) /\
      own_property props "service.name" = Some (JString "checkout") /\
      own_property props "service_name" = Some (JString "checkout")) /\
  exists r log',
    @detect Resolver.Config (constructor (host_with "linux" named_conf))
      None (host_with "linux" named_conf) [] = (Normal r, log') /\
    attributes r !! "service.name" = Some (JString "aws_elastic_beanstalk").
Proof.
  split.
  - eexists. split; [vm_compute; reflexivity|].
    split; vm_compute; reflexivity.
  - eexists _, _. split; vm_compute; reflexivity.
Qed.

(** C5, amended. On the success path, [detect] sets [service.name] to the
    fixed Elastic Beanstalk platform constant whatever the parsed structure
    holds; [cloud.provider] and [cloud.platform] are the fixed constants for
    this platform; [service.namespace], [service.version] and
    [service.instance.id] are the values of the parsed fields
    [environment_name], [version_label] and [deployment_id]. *)
Theorem detect_attribute_mapping {Config : Type} (this : AwsBeanstalkDetector)
    (config : option Config) (h : Host) (log : list Call)
    (raw : string) (v : JSValue) :
  fs_access h (BEANSTALK_CONF_PATH this) R_OK = None ->
  fs_readFile h (BEANSTALK_CONF_PATH this) "utf8" = inr raw ->
  JSON.parse raw = inr v ->
  is_nullish v = false ->
  exists r log',
    detect this config h log = (Normal r, log') /\
    attributes r !! SERVICE_NAME
      = Some (JString CloudPlatformValues.AWS_ELASTIC_BEANSTALK) /\
    attributes r !! CLOUD_PROVIDER = Some (JString CloudProviderValues.AWS) /\
    attributes r !! CLOUD_PLATFORM
      = Some (JString CloudPlatformValues.AWS_ELASTIC_BEANSTALK) /\
    attributes r !! SERVICE_NAMESPACE
      = Some (property_value v "environment_name") /\
    attributes r !! SERVICE_VERSION
      = Some (property_value v "version_label") /\
    attributes r !! SERVICE_INSTANCE_ID
      = Some (property_value v "deployment_id").
Proof.
  intros Ha Hr Hp Hv. eexists _, _.
  split; [by apply (detect_success this config h log raw v)|].
  destruct (extracted_lookup v) as (L1 & L2 & L3 & L4 & L5 & L6).
  repeat split; assumption.
Qed.

Lemma detect_attribute_mapping_witness :
  exists r log',
    @detect Resolver.Config (constructor (host_with "linux" named_conf))
      None (host_with "linux" named_conf) [] = (Normal r, log') /\
    attributes r !! SERVICE_NAME = Some (JString "aws_elastic_beanstalk") /\
    attributes r !! CLOUD_PROVIDER = Some (JString "aws") /\
    attributes r !! CLOUD_PLATFORM = Some (JString "aws_elastic_beanstalk") /\
    attributes r !! SERVICE_NAMESPACE = Some (JString "prod") /\
    attributes r !! SERVICE_VERSION = Some (JString "v1") /\
    attributes r !! SERVICE_INSTANCE_ID = Some (JString "i-123").
Proof.
  apply (detect_attribute_mapping (Config := Resolver.Config)
           (constructor (host_with "linux" named_conf)) None
           (host_with "linux" named_conf) [] named_conf
           (JObject [("service.name", JString "checkout");
                     ("service_name", JString "checkout");
                     ("environment_name", JString "prod");
                     ("version_label", JString "v1");
                     ("deployment_id", JString "i-123")]));
    vm_compute; reflexivity.
Defined.

(** ** Further properties of the detector *)

(** The four ways a run of [detect] can go, with the calls it makes. *)
Lemma detect_run {Config : Type} (this : AwsBeanstalkDetector)
    (config : option Config) (h : Host) (log : list Call) :
  (exists e,
      fs_access h (BEANSTALK_CONF_PATH this) R_OK = Some e /\
      detect this config h log
      = (Normal Resource_empty,
         log ++ [CallAccess (BEANSTALK_CONF_PATH this) R_OK; failed e])) \/
  (exists e,
      fs_access h (BEANSTALK_CONF_PATH this) R_OK = None /\
      fs_readFile h (BEANSTALK_CONF_PATH this) "utf8" = inl e /\
      detect this config h log
      = (Normal Resource_empty,
         log ++ [CallAccess (BEANSTALK_CONF_PATH this) R_OK;
                 CallReadFile (BEANSTALK_CONF_PATH this) "utf8"; failed e])) \/
  (exists raw e,
      fs_access h (BEANSTALK_CONF_PATH this) R_OK = None /\
      fs_readFile h (BEANSTALK_CONF_PATH this) "utf8" = inr raw /\
      (JSON.parse raw = inl e \/
       JSON.parse raw = inr JNull /\
       e = TypeError "Cannot read property 'environment_name' of null") /\
      detect this config h log
      = (Normal Resource_empty,
         log ++ [CallAccess (BEANSTALK_CONF_PATH this) R_OK;
                 CallReadFile (BEANSTALK_CONF_PATH this) "utf8";
                 CallJSONParse raw; failed e])) \/
  (exists raw v,
      fs_access h (BEANSTALK_CONF_PATH this) R_OK = None /\
      fs_readFile h (BEANSTALK_CONF_PATH this) "utf8" = inr raw /\
      JSON.parse raw = inr v /\ is_nullish v = false /\
      detect this config h log
      = (Normal (extracted v),
         log ++ [CallAccess (BEANSTALK_CONF_PATH this) R_OK;
                 CallReadFile (BEANSTALK_CONF_PATH this) "utf8";
                 CallJSONParse raw])).
Proof.
  destruct (fs_access h (BEANSTALK_CONF_PATH this) R_OK) as [e|] eqn:Ha.
  { left. exists e. split; [done|]. by apply detect_access_error. }
  destruct (fs_readFile h (BEANSTALK_CONF_PATH this) "utf8") as [e|raw] eqn:Hr.
  { right; left. exists e. repeat split; try done.
    by apply detect_read_error. }
  destruct (JSON.parse raw) as [e|v] eqn:Hp.
  { right; right; left. exists raw, e. repeat split; auto.
    by apply detect_parse_error. }
  destruct (is_nullish v) eqn:Hv.
  - destruct v; try discriminate Hv.
    + by apply JSONFacts.parse_not_undefined in Hp.
    + right; right; left. eexists raw, _. repeat split; auto.
      by apply detect_null.
  - right; right; right. exists raw, v. repeat split; auto.
    by apply detect_success.
Qed.

Ltac each_call Hc :=
  repeat (apply elem_of_cons in Hc as [-> | Hc]);
  try (by apply elem_of_nil in Hc).


(** X1. The exported detector touches the file system only at the
    configuration path of its platform (the Windows path when
    [process.platform] is [win32], the default path otherwise): its first
    call is the read-access probe of that path, and every [fs.access] or
    [fs.readFile] call it makes is on that path, with mode [R_OK] and
    encoding [utf8]. *)
Theorem singleton_uses_platform_path {Config : Type}
    (config : option Config) (h : Host) (log : list Call) :
  exists r calls,
    detect (awsBeanstalkDetector h) config h log = (Normal r, log ++ calls) /\
    (exists tail,
        calls
        = CallAccess
            (if String.eqb (process_platform h) "win32"
             then WIN_OS_BEANSTALK_CONF_PATH
             else DEFAULT_BEANSTALK_CONF_PATH) R_OK :: tail) /\
    (forall c, c ∈ calls ->
       match c with
       | CallAccess p m =>
           p = (if String.eqb (process_platform h) "win32"
                then WIN_OS_BEANSTALK_CONF_PATH
                else DEFAULT_BEANSTALK_CONF_PATH) /\ m = R_OK
       | CallReadFile p enc =>
           p = (if String.eqb (process_platform h) "win32"
                then WIN_OS_BEANSTALK_CONF_PATH
                else DEFAULT_BEANSTALK_CONF_PATH) /\ enc = "utf8"
       | _ => True
       end).
Proof.
  assert (BEANSTALK_CONF_PATH (awsBeanstalkDetector h)
          = if String.eqb (process_platform h) "win32"
            then WIN_OS_BEANSTALK_CONF_PATH
            else DEFAULT_BEANSTALK_CONF_PATH) as <-.
  { unfold awsBeanstalkDetector, constructor.
    by destruct (String.eqb (process_platform h) "win32"). }
  destruct (detect_run (awsBeanstalkDetector h) config h log)
    as [(e & _ & E) | [(e & _ & _ & E) | [(raw & e & _ & _ & _ & E)
       | (raw & v & _ & _ & _ & _ & E)]]];
    eexists _, _; (split; [exact E|]); (split; [by eexists|]);
    intros c Hc; each_call Hc; simpl; auto.
Qed.

(** X2. The outcome of [detect] depends on the host only through the
    answers of [fs.access] and [fs.readFile] at the detector's own path: on
    two hosts that agree there, whatever else differs (platform, other
    files), [detect] returns the same resource and makes the same calls. *)
Theorem detect_local {Config : Type} (this : AwsBeanstalkDetector)
    (config : option Config) (h1 h2 : Host) (log : list Call) :
  fs_access h1 (BEANSTALK_CONF_PATH this) R_OK
  = fs_access h2 (BEANSTALK_CONF_PATH this) R_OK ->
  fs_readFile h1 (BEANSTALK_CONF_PATH this) "utf8"
  = fs_readFile h2 (BEANSTALK_CONF_PATH this) "utf8" ->
  detect this config h1 log = detect this config h2 log.
Proof.
  intros Ha Hr. run_detect. simpl. rewrite Ha, Hr.
  destruct (fs_access h2 _ _); simpl; [reflexivity|].
  destruct (fs_readFile h2 _ _) as [e|raw]; simpl; [reflexivity|].
  destruct (JSON.parse raw) as [e|v]; simpl; [reflexivity|].
  destruct (get_property v "environment_name"); simpl; [reflexivity|].
  destruct (get_property v "version_label"); simpl; [reflexivity|].
  destruct (get_property v "deployment_id"); reflexivity.
Qed.

Lemma detect_local_witness :
  @detect Resolver.Config (constructor (host_with "linux" prod_conf)) None
    (host_with "linux" prod_conf) []
  = @detect Resolver.Config (constructor (host_with "linux" prod_conf)) None
      (host_crowded "freebsd" prod_conf "other") [].
Proof.
  apply (detect_local (constructor (host_with "linux" prod_conf)) None
           (host_with "linux" prod_conf)
           (host_crowded "freebsd" prod_conf "other") []);
    reflexivity.
Defined.



(** X5. [detect] reads three fields of the document and nothing else: two
    configuration files whose documents agree on [environment_name],
    [version_label] and [deployment_id] give the same resource, whatever
    other fields they carry. *)
Theorem detect_ignores_other_fields {Config : Type}
    (this : AwsBeanstalkDetector) (config : option Config) (h1 h2 : Host)
    (log1 log2 : list Call) (raw1 raw2 : string) (v1 v2 : JSValue) :
  fs_access h1 (BEANSTALK_CONF_PATH this) R_OK = None ->
  fs_access h2 (BEANSTALK_CONF_PATH this) R_OK = None ->
  fs_readFile h1 (BEANSTALK_CONF_PATH this) "utf8" = inr raw1 ->
  fs_readFile h2 (BEANSTALK_CONF_PATH this) "utf8" = inr raw2 ->
  JSON.parse raw1 = inr v1 -> is_nullish v1 = false ->
  JSON.parse raw2 = inr v2 -> is_nullish v2 = false ->
  property_value v1 "environment_name" = property_value v2 "environment_name" ->
  property_value v1 "version_label" = property_value v2 "version_label" ->
  property_value v1 "deployment_id" = property_value v2 "deployment_id" ->
  fst (detect this config h1 log1) = fst (detect this config h2 log2).
Proof.
  intros Ha1 Ha2 Hr1 Hr2 Hp1 Hv1 Hp2 Hv2 E1 E2 E3.
  rewrite (detect_success this config h1 log1 raw1 v1 Ha1 Hr1 Hp1 Hv1).
  rewrite (detect_success this config h2 log2 raw2 v2 Ha2 Hr2 Hp2 Hv2).
  simpl. by rewrite E1, E2, E3.
Qed.

Lemma detect_ignores_other_fields_witness :
  fst (@detect Resolver.Config (constructor (host_with "linux" prod_conf))
         None (host_with "linux" prod_conf) [])
  = fst (@detect Resolver.Config (constructor (host_with "linux" prod_conf))
           None (host_with "linux" named_conf) []).
Proof.
  apply (detect_ignores_other_fields
           (constructor (host_with "linux" prod_conf)) None
           (host_with "linux" prod_conf) (host_with "linux" named_conf)
           [] [] prod_conf named_conf
           (JObject [("environment_name", JString "prod");
                     ("version_label", JString "v1");
                     ("deployment_id", JString "i-123")])
           (JObject [("service.name", JString "checkout");
                     ("service_name", JString "checkout");
                     ("environment_name", JString "prod");
                     ("version_label", JString "v1");
                     ("deployment_id", JString "i-123")]));
    vm_compute; reflexivity.
Defined.

(** X6. A configuration file that holds valid JSON other than an object or
    [null] (an array, a number, a string, a boolean) is not a failure:
    [detect] returns a non-empty resource with the three fixed attributes,
    in which [service.namespace], [service.version] and
    [service.instance.id] are [undefined], and logs nothing. *)
Theorem detect_non_object_document {Config : Type}
    (this : AwsBeanstalkDetector) (config : option Config) (h : Host)
    (log : list Call) (raw : string) (v : JSValue) :
  fs_access h (BEANSTALK_CONF_PATH this) R_OK = None ->
  fs_readFile h (BEANSTALK_CONF_PATH this) "utf8" = inr raw ->
  JSON.parse raw = inr v ->
  v <> JNull ->
  (forall props, v <> JObject props) ->
  exists r,
    detect this config h log
    = (Normal r,
       log ++ [CallAccess (BEANSTALK_CONF_PATH this) R_OK;
               CallReadFile (BEANSTALK_CONF_PATH this) "utf8";
               CallJSONParse raw]) /\
    r <> Resource_empty /\
    attributes r !! CLOUD_PROVIDER = Some (JString "aws") /\
    attributes r !! CLOUD_PLATFORM = Some (JString "aws_elastic_beanstalk") /\
    attributes r !! SERVICE_NAME = Some (JString "aws_elastic_beanstalk") /\
    attributes r !! SERVICE_NAMESPACE = Some JUndefined /\
    attributes r !! SERVICE_VERSION = Some JUndefined /\
    attributes r !! SERVICE_INSTANCE_ID = Some JUndefined.
Proof.
  intros Ha Hr Hp Hnull Hobj.
  assert (is_nullish v = false) as Hv.
  { destruct v; try done. by apply JSONFacts.parse_not_undefined in Hp. }
  assert (forall k, property_value v k = JUndefined) as Hk.
  { intros k. destruct v; try reflexivity. by destruct (Hobj props). }
  eexists. split; [by apply (detect_success this config h log raw v)|].
  split; [apply extracted_not_empty|].
  destruct (extracted_lookup v) as (L1 & L2 & L3 & L4 & L5 & L6).
  rewrite !Hk in *. repeat split; assumption.
Qed.

Lemma detect_non_object_document_witness :
  exists r,
    @detect Resolver.Config (constructor (host_with "linux" array_conf)) None
      (host_with "linux" array_conf) []
    = (Normal r,
       [] ++ [CallAccess DEFAULT_BEANSTALK_CONF_PATH R_OK;
              CallReadFile DEFAULT_BEANSTALK_CONF_PATH "utf8";
              CallJSONParse array_conf]) /\
    r <> Resource_empty /\
    attributes r !! CLOUD_PROVIDER = Some (JString "aws") /\
    attributes r !! CLOUD_PLATFORM = Some (JString "aws_elastic_beanstalk") /\
    attributes r !! SERVICE_NAME = Some (JString "aws_elastic_beanstalk") /\
    attributes r !! SERVICE_NAMESPACE = Some JUndefined /\
    attributes r !! SERVICE_VERSION = Some JUndefined /\
    attributes r !! SERVICE_INSTANCE_ID = Some JUndefined.
Proof.
  apply (detect_non_object_document (Config := Resolver.Config)
           (constructor (host_with "linux" array_conf)) None
           (host_with "linux" array_conf) [] array_conf
           (JArray [JNumber "1"; JNumber "2"]));
    try (vm_compute; reflexivity); try discriminate.
Defined.

End AwsBeanstalkFacts.
